(** * Advertisement REST service (server.py): model and contract

    A shallow embedding of [server.py]: the pydantic schemas and [validate],
    the [HttpError] handler, the [advertisements] table behind the SQLAlchemy
    session, and the four methods of [AdView], followed by the properties of
    the request/response contract.

    The libraries the module calls are modelled by their behaviour:
    - pydantic 1.x.  [PatchAd] declares [typing.Optional[str]] fields without
      a default and relies on them being optional, and the code calls
      [.dict()] and [error.errors()]; this is the 1.x reading of a model.
      There a [str] field takes a string as it is, turns a number into its
      [str()], and rejects the rest; unknown keys are ignored; [.dict()]
      lists every declared field.  The first parameter of a model's
      [__init__] is named [__pydantic_self__], so a keyword argument of that
      name cannot be bound.
    - SQLAlchemy on PostgreSQL, in a UTF-8 database, through psycopg2.  The
      driver refuses a text parameter that holds a NUL character or a lone
      surrogate.  The table
      has a serial primary key of type [Integer], NOT NULL columns and a
      unique index on [ad_name]; a violated constraint raises
      [IntegrityError] at [commit], and a session left by an exception
      commits nothing.  PostgreSQL's size limits (an index entry holds about
      2.7 kB, a statement less than 1 GB) are not part of the model: where a
      statement promises that a row is written, it bounds the length of the
      text instead.
    - Flask.  A view's dict is sent as JSON with status 200, an [HttpError]
      goes through the registered handler, an exception of Werkzeug is sent
      as its own page, and any other exception becomes the 500 page. *)

From Stdlib Require Import ZArith NArith Ascii String List Lia.
From stdpp Require Import base option list strings gmap pretty.

Local Open Scope string_scope.
Local Open Scope N_scope.

(** ** Values *)

(** What [request.json] yields.  A real number is kept as the [repr] of the
    Python float it parses to. *)
#[warnings="-register-all"]
Inductive json : Type :=
| JNull
| JBool (b : bool)
| JInt (z : Z)
| JFloat (repr : string)
| JStr (s : string)
| JArr (l : list json)
| JObj (m : gmap string json).

(** One entry of pydantic's [error.errors()]. *)
Record ErrorDict : Type := mkErrorDict {
  loc : list string;
  msg : string;
  type_ : string
}.

Inductive exception : Type :=
| HttpError (status_code : Z) (message : json)
| ValidationError (errors : list ErrorDict)
| TypeError
| KeyError (key : string)
| ValueError
| IntegrityError
| DataError
| BadRequest
| UnsupportedMediaType.

Inductive result (A : Type) : Type :=
| Ok (a : A)
| Raise (e : exception).
Arguments Ok {A} a.
Arguments Raise {A} e.

(** Exceptions propagate through sequencing, as in Python. *)
Global Instance result_ret : MRet result := λ A a, Ok a.
Global Instance result_bind : MBind result := λ A B k r,
  match r with
  | Ok a => k a
  | Raise e => Raise e
  end.

(** ** pydantic models *)

Record ModelField : Type := mkField {
  field_name : string;
  required : bool
}.

Definition CreateAd : list ModelField :=
  [mkField "ad_name" true; mkField "ad_body" true; mkField "ad_owner" true].

Definition PatchAd : list ModelField :=
  [mkField "ad_name" false; mkField "ad_body" false; mkField "ad_owner" false].

Definition py_str_bool (b : bool) : string := if b then "True" else "False".

(** The validator of a [str] field. *)
Definition str_validator (v : json) : option string :=
  match v with
  | JStr s => Some s
  | JInt z => Some (pretty z)
  | JFloat r => Some r
  | JBool b => Some (py_str_bool b)
  | JNull | JArr _ | JObj _ => None
  end.

Definition missing_error (f : string) : ErrorDict :=
  mkErrorDict [f] "field required" "value_error.missing".
Definition none_error (f : string) : ErrorDict :=
  mkErrorDict [f] "none is not an allowed value" "type_error.none.not_allowed".
Definition str_error (f : string) : ErrorDict :=
  mkErrorDict [f] "str type expected" "type_error.str".

(** Validation of one field against the keyword arguments: the value kept
    for the field, or the error recorded for it. *)
Definition validate_field (fld : ModelField) (data : gmap string json)
  : ErrorDict + option string :=
  let f := field_name fld in
  match data !! f with
  | None => if required fld then inl (missing_error f) else inr None
  | Some JNull => if required fld then inl (none_error f) else inr None
  | Some v =>
      match str_validator v with
      | Some s => inr (Some s)
      | None => inl (str_error f)
      end
  end.

(** All fields are visited, in declaration order; values and errors are
    collected side by side. *)
Fixpoint validate_model (model : list ModelField) (data : gmap string json)
  : gmap string (option string) * list ErrorDict :=
  match model with
  | [] => (∅, [])
  | fld :: rest =>
      let '(values, errors) := validate_model rest data in
      match validate_field fld data with
      | inl e => (values, e :: errors)
      | inr v => (<[field_name fld := v]> values, errors)
      end
  end.

(** The call [model( **data ).dict()]. *)
Definition model_dict (model : list ModelField) (data : gmap string json)
  : result (gmap string (option string)) :=
  let '(values, errors) := validate_model model data in
  match errors with
  | [] => Ok values
  | _ :: _ => Raise (ValidationError errors)
  end.

Definition error_json (e : ErrorDict) : json :=
  JObj (<["loc" := JArr (JStr <$> loc e)]>
        (<["msg" := JStr (msg e)]>
        (<["type" := JStr (type_ e)]> ∅))).

(** [validate(model, raw_data)]: unpacking [raw_data] with the double star
    needs a mapping, and its keys are bound as keyword arguments next to the
    parameter [__pydantic_self__] of the call, so that a key of that name is
    a [TypeError] as well; only pydantic's [ValidationError] is caught. *)
Definition validate (model : list ModelField) (raw_data : json)
  : result (gmap string (option string)) :=
  match raw_data with
  | JObj data =>
      match data !! "__pydantic_self__" with
      | Some _ => Raise TypeError
      | None =>
          match model_dict model data with
          | Raise (ValidationError errors) =>
              Raise (HttpError 400 (JArr (error_json <$> errors)))
          | r => r
          end
      end
  | _ => Raise TypeError
  end.

(** Reading the validated dict: [d[k]] and [d.get(k)]. *)
Definition getitem (d : gmap string (option string)) (k : string)
  : result (option string) :=
  match d !! k with
  | Some v => Ok v
  | None => Raise (KeyError k)
  end.

Definition dict_get (d : gmap string (option string)) (k : string)
  : option string :=
  match d !! k with
  | Some v => v
  | None => None
  end.

(** Truth value of a Python string. *)
Definition truthy (s : string) : bool := negb (String.eqb s "").

(** ** Text on its way to the database *)

(** A Python [str] is kept as its UTF-8 bytes; a lone surrogate, which UTF-8
    proper cannot encode, as the three bytes of its generalized encoding:
    the first is [0xED], the second [0xA0] or above. *)
Fixpoint has_nul (s : string) : bool :=
  match s with
  | EmptyString => false
  | String c rest => (N_of_ascii c =? 0)%N || has_nul rest
  end.

Fixpoint has_surrogate (s : string) : bool :=
  match s with
  | String c (String d _ as rest) =>
      ((N_of_ascii c =? 237)%N && (160 <=? N_of_ascii d)%N)
      || has_surrogate rest
  | _ => false
  end.

(** What psycopg2 turns into a query parameter.  On a NUL character it
    raises [ValueError], on a lone surrogate [UnicodeEncodeError], which is
    a [ValueError]; [None] is sent as NULL. *)
Definition adaptable (s : string) : bool :=
  negb (has_nul s) && negb (has_surrogate s).

Definition adaptable_param (v : option string) : bool :=
  match v with
  | Some s => adaptable s
  | None => true
  end.

(** ** The table *)

Record datetime : Type := mkDatetime {
  year : N; month : N; day : N;
  hour : N; minute : N; second : N; microsecond : N
}.

Definition zfill (width : nat) (s : string) : string :=
  String.concat "" (replicate (width - String.length s) "0") ++ s.

Definition isoformat (d : datetime) : string :=
  zfill 4 (pretty (year d)) ++ "-" ++ zfill 2 (pretty (month d)) ++ "-"
  ++ zfill 2 (pretty (day d)) ++ "T" ++ zfill 2 (pretty (hour d)) ++ ":"
  ++ zfill 2 (pretty (minute d)) ++ ":" ++ zfill 2 (pretty (second d))
  ++ (if (microsecond d =? 0)%N then ""
      else "." ++ zfill 6 (pretty (microsecond d))).

(** A row of [advertisements].  The primary key [id] is the key under which
    the row is kept in the table. *)
Record Advertisement : Type := mkAdvertisement {
  ad_name : string;
  ad_body : string;
  ad_owner : string;
  created_at : datetime
}.

(** The database: the rows by primary key, and the sequence that feeds the
    serial [id] column. *)
Record database : Type := mkDatabase {
  advertisements : gmap N Advertisement;
  advertisements_id_seq : N
}.

(** [Base.metadata.create_all(engine)] on a fresh database. *)
Definition create_all : database := mkDatabase ∅ 1.

(** The unique index on [ad_name]. *)
Definition name_taken (n : string) (rows : gmap N Advertisement) : Prop :=
  map_Exists (λ _ ad, ad_name ad = n) rows.

Definition name_taken_by_other (ad_id : N) (n : string)
    (rows : gmap N Advertisement) : Prop :=
  map_Exists (λ i ad, i ≠ ad_id ∧ ad_name ad = n) rows.

(** The largest value of an [Integer] column and of its sequence. *)
Definition int4_max : N := 2147483647.

(** The INSERT as the server runs it, once the driver has sent the
    parameters and the sequence has a value to give.  The sequence value is
    drawn before the constraints are checked and is not given back when the
    insert fails; [created_at] is the server default [now()]. *)
Definition insert_commit (name body owner : option string) (now : datetime)
    (db : database) : result (N * Advertisement) * database :=
  let new_id := advertisements_id_seq db in
  let rows := advertisements db in
  match name, body, owner with
  | Some n, Some b, Some o =>
      if bool_decide (is_Some (rows !! new_id) ∨ name_taken n rows)
      then (Raise IntegrityError, mkDatabase rows (new_id + 1))
      else
        let ad := mkAdvertisement n b o now in
        (Ok (new_id, ad), mkDatabase (<[new_id := ad]> rows) (new_id + 1))
  | _, _, _ => (Raise IntegrityError, mkDatabase rows (new_id + 1))
  end.

(** [session.add(ad); session.commit()] for a new object.  The driver
    adapts the three parameters before anything is sent; the server then
    asks the sequence, which raises once it has passed its maximum, and runs
    the INSERT. *)
Definition flush_insert (name body owner : option string) (now : datetime)
    (db : database) : result (N * Advertisement) * database :=
  if negb (adaptable_param name && adaptable_param body
           && adaptable_param owner)
  then (Raise ValueError, db)
  else if (int4_max <? advertisements_id_seq db)%N
  then (Raise DataError, db)
  else insert_commit name body owner now db.

(** The UPDATE as the server runs it: the unique index is consulted when
    [ad_name] changes. *)
Definition update_commit (ad_id : N) (old new : Advertisement)
    (db : database) : result unit * database :=
  let rows := advertisements db in
  if bool_decide (ad_name new ≠ ad_name old
                  ∧ name_taken_by_other ad_id (ad_name new) rows)
  then (Raise IntegrityError, db)
  else (Ok (), mkDatabase (<[ad_id := new]> rows) (advertisements_id_seq db)).

(** [session.add(ad); session.commit()] for a loaded object: UPDATE of the
    attributes that changed, none when nothing changed.  The new values of
    the changed attributes are the parameters the driver adapts. *)
Definition flush_update (ad_id : N) (old new : Advertisement)
    (db : database) : result unit * database :=
  if bool_decide
       ((ad_name new ≠ ad_name old ∧ adaptable (ad_name new) = false)
        ∨ (ad_body new ≠ ad_body old ∧ adaptable (ad_body new) = false)
        ∨ (ad_owner new ≠ ad_owner old ∧ adaptable (ad_owner new) = false))
  then (Raise ValueError, db)
  else update_commit ad_id old new db.

(** [session.delete(ad); session.commit()] *)
Definition delete_commit (ad_id : N) (db : database) : result unit * database :=
  (Ok (), mkDatabase (delete ad_id (advertisements db))
                     (advertisements_id_seq db)).

Definition get_ad (db : database) (ad_id : N) : result Advertisement :=
  match advertisements db !! ad_id with
  | None => Raise (HttpError 404 (JStr "advertisement not found"))
  | Some ad => Ok ad
  end.

(** ** The view *)

Definition success : json := JObj (<["status" := JStr "success"]> ∅).

Definition ad_json (ad : Advertisement) : json :=
  JObj (<["ad_name" := JStr (ad_name ad)]>
        (<["ad_body" := JStr (ad_body ad)]>
        (<["ad_owner" := JStr (ad_owner ad)]>
        (<["created_at" := JStr (isoformat (created_at ad))]> ∅)))).

Definition created_json (new_id : N) (ad : Advertisement) : json :=
  JObj (<["id" := JInt (Z.of_N new_id)]>
        (<["ad_name" := JStr (ad_name ad)]> ∅)).

Definition set_ad_name (s : string) (ad : Advertisement) : Advertisement :=
  mkAdvertisement s (ad_body ad) (ad_owner ad) (created_at ad).

Definition set_ad_body (s : string) (ad : Advertisement) : Advertisement :=
  mkAdvertisement (ad_name ad) s (ad_owner ad) (created_at ad).

(** [if validated.get(k): setter(ad, validated[k])] *)
Definition assign_if_truthy (v : option string)
    (setter : string → Advertisement → Advertisement) (ad : Advertisement)
  : Advertisement :=
  match v with
  | Some s => if truthy s then setter s ad else ad
  | None => ad
  end.

(** What the client sent as the body: JSON that parses, JSON that does
    not, or something that is not declared as JSON. *)
Inductive body_data : Type :=
| Parsed (j : json)
| Malformed
| NotJson.

Coercion Parsed : json >-> body_data.

(** [request.json], read inside the view: Werkzeug raises [BadRequest] for
    a body that does not parse and [UnsupportedMediaType] for one that is
    not JSON. *)
Definition request_json (sent : body_data) : result json :=
  match sent with
  | Parsed j => Ok j
  | Malformed => Raise BadRequest
  | NotJson => Raise UnsupportedMediaType
  end.

Module AdView.

Definition get (ad_id : N) (db : database) : result json * database :=
  (ad ← get_ad db ad_id; Ok (ad_json ad), db).

Definition post (sent : body_data) (now : datetime) (db : database)
  : result json * database :=
  match request_json sent ≫= validate CreateAd with
  | Raise e => (Raise e, db)
  | Ok validated =>
      match (n ← getitem validated "ad_name";
             b ← getitem validated "ad_body";
             o ← getitem validated "ad_owner";
             Ok (n, b, o)) with
      | Raise e => (Raise e, db)
      | Ok (n, b, o) =>
          match flush_insert n b o now db with
          | (Ok (new_id, ad), db') => (Ok (created_json new_id ad), db')
          | (Raise e, db') => (Raise e, db')
          end
      end
  end.

Definition patch (ad_id : N) (sent : body_data) (db : database)
  : result json * database :=
  match request_json sent ≫= validate PatchAd with
  | Raise e => (Raise e, db)
  | Ok validated =>
      match get_ad db ad_id with
      | Raise e => (Raise e, db)
      | Ok ad =>
          let ad1 :=
            assign_if_truthy (dict_get validated "ad_name") set_ad_name ad in
          let ad2 :=
            assign_if_truthy (dict_get validated "ad_body") set_ad_body ad1 in
          match flush_update ad_id ad ad2 db with
          | (Ok _, db') => (Ok success, db')
          | (Raise e, db') => (Raise e, db')
          end
      end
  end.

Definition delete (ad_id : N) (db : database) : result json * database :=
  match get_ad db ad_id with
  | Raise e => (Raise e, db)
  | Ok _ =>
      match delete_commit ad_id db with
      | (Ok _, db') => (Ok success, db')
      | (Raise e, db') => (Raise e, db')
      end
  end.

End AdView.

(** ** Flask: routing and error handling *)

Inductive body : Type :=
| JsonBody (j : json)
| InternalServerErrorPage
| BadRequestPage
| UnsupportedMediaTypePage.

Record response : Type := mkResponse {
  status : Z;
  data : body
}.

Definition http_error_handler (status_code : Z) (message : json) : response :=
  mkResponse status_code
    (JsonBody (JObj (<["status" := JStr "error"]>
                    (<["reason" := message]> ∅)))).

Definition make_response (r : result json) : response :=
  match r with
  | Ok j => mkResponse 200 (JsonBody j)
  | Raise (HttpError status_code message) =>
      http_error_handler status_code message
  | Raise BadRequest => mkResponse 400 BadRequestPage
  | Raise UnsupportedMediaType => mkResponse 415 UnsupportedMediaTypePage
  | Raise _ => mkResponse 500 InternalServerErrorPage
  end.

(** The two URL rules.  [<int:ad_id>] matches a run of digits; [POST]
    carries the reading of the database clock at its insert. *)
Inductive request : Type :=
| POST (sent : body_data) (now : datetime)
| GET (ad_id : N)
| PATCH (ad_id : N) (sent : body_data)
| DELETE (ad_id : N).

Definition dispatch (req : request) (db : database) : result json * database :=
  match req with
  | POST j now => AdView.post j now db
  | GET ad_id => AdView.get ad_id db
  | PATCH ad_id j => AdView.patch ad_id j db
  | DELETE ad_id => AdView.delete ad_id db
  end.

Definition handle (req : request) (db : database) : response * database :=
  let '(r, db') := dispatch req db in (make_response r, db').

(** The database after a sequence of requests. *)
Fixpoint run (reqs : list request) (db : database) : database :=
  match reqs with
  | [] => db
  | req :: rest => run rest (handle req db).2
  end.

(** States the server can be in, starting from the freshly created table. *)
Inductive reachable : database → Prop :=
| reachable_init : reachable create_all
| reachable_step req db : reachable db → reachable (handle req db).2.

(** Every stored id was drawn from the sequence. *)
Definition ids_below_seq (db : database) : Prop :=
  ∀ i, is_Some (advertisements db !! i) → i < advertisements_id_seq db.

(** The invariant named in the data model: no two rows share an [ad_name]. *)
Definition names_unique (db : database) : Prop :=
  ∀ i j a b, advertisements db !! i = Some a → advertisements db !! j = Some b →
             ad_name a = ad_name b → i = j.

(** ** Notions the contract is stated with *)

(** The string a body supplies for a field, if it supplies one. *)
Definition supplied (data : gmap string json) (f : string) : option string :=
  data !! f ≫= str_validator.

(** An object whose keys can be bound as the keyword arguments of a
    model. *)
Definition bindable (data : gmap string json) : Prop :=
  data !! "__pydantic_self__" = None.

(** Each recognized key the body carries holds null or a value the [str]
    validator takes: what [PatchAd] asks of the fields. *)
Definition patchable (data : gmap string json) : Prop :=
  ∀ f x, f ∈ field_name <$> PatchAd → data !! f = Some x →
         x = JNull ∨ is_Some (str_validator x).


(** The row a valid PATCH body turns [ad] into. *)
Definition patched (data : gmap string json) (ad : Advertisement)
  : Advertisement :=
  assign_if_truthy (supplied data "ad_body") set_ad_body
    (assign_if_truthy (supplied data "ad_name") set_ad_name ad).

(** An id that is free and already behind the sequence stays free. *)
Definition retired (ad_id : N) (db : database) : Prop :=
  advertisements db !! ad_id = None ∧ ad_id < advertisements_id_seq db.


(** The error pydantic records for a [CreateAd] field that [data] does not
    supply: missing, null, or of a type the [str] validator refuses. *)
Definition create_error (data : gmap string json) (f : string) : ErrorDict :=
  match data !! f with
  | None => missing_error f
  | Some JNull => none_error f
  | Some _ => str_error f
  end.

(** ** Request bodies used below *)

Definition obj (l : list (string * json)) : json := JObj (list_to_map l).

Definition dt0 : datetime := mkDatetime 2023 1 15 10 30 0 0.
Definition dt1 : datetime := mkDatetime 2023 1 15 10 31 7 1250.

Definition payload_xyz : json :=
  obj [("ad_name", JStr "x"); ("ad_body", JStr "y"); ("ad_owner", JStr "z")].

Definition db1 : database := (handle (POST payload_xyz dt0) create_all).2.

Definition payload_wyz : json :=
  obj [("ad_name", JStr "w"); ("ad_body", JStr "y"); ("ad_owner", JStr "z")].

Definition db2 : database := (handle (POST payload_wyz dt1) db1).2.

Example validate_create_ok :
  validate CreateAd (obj [("ad_name", JStr "x"); ("ad_body", JStr "y");
                          ("ad_owner", JStr "z"); ("extra", JInt 1)])
  = Ok (<["ad_name" := Some "x"]> (<["ad_body" := Some "y"]>
       (<["ad_owner" := Some "z"]> ∅))).
Proof. vm_compute. reflexivity. Qed.

Example isoformat_dt1 : isoformat dt1 = "2023-01-15T10:31:07.001250".
Proof. reflexivity. Qed.

Example scenario_post :
  handle (POST payload_xyz dt0) create_all
  = (mkResponse 200 (JsonBody (obj [("id", JInt 1); ("ad_name", JStr "x")])), db1).
Proof. vm_compute. reflexivity. Qed.

Example scenario_get :
  (handle (GET 1) db1).1
  = mkResponse 200 (JsonBody (obj [("ad_name", JStr "x"); ("ad_body", JStr "y");
       ("ad_owner", JStr "z"); ("created_at", JStr "2023-01-15T10:30:00")])).
Proof. vm_compute. reflexivity. Qed.

Example scenario_delete_get :
  (handle (DELETE 1) db1).1 = mkResponse 200 (JsonBody success)
  ∧ (handle (GET 1) (handle (DELETE 1) db1).2).1
    = http_error_handler 404 (JStr "advertisement not found").
Proof. vm_compute. split; reflexivity. Qed.

Example adaptable_text :
  adaptable "advert" = true
  ∧ adaptable (String (ascii_of_N 237) (String (ascii_of_N 149)
                 (String (ascii_of_N 156) ""))) = true
  ∧ adaptable (String (ascii_of_N 237) (String (ascii_of_N 160)
                 (String (ascii_of_N 128) ""))) = false
  ∧ adaptable (String "000"%char "") = false.
Proof. vm_compute. repeat split. Qed.

Example post_with_parameter_name_as_key :
  handle (POST (obj [("__pydantic_self__", JInt 1); ("ad_name", JStr "x");
                     ("ad_body", JStr "y"); ("ad_owner", JStr "z")]) dt0)
         create_all
  = (mkResponse 500 InternalServerErrorPage, create_all).
Proof. vm_compute. reflexivity. Qed.

Example post_with_nul_character :
  handle (POST (obj [("ad_name", JStr "x");
                     ("ad_body", JStr (String "000"%char "y"));
                     ("ad_owner", JStr "z")]) dt0) create_all
  = (mkResponse 500 InternalServerErrorPage, create_all).
Proof. vm_compute. reflexivity. Qed.

Example post_past_the_last_id :
  handle (POST payload_xyz dt0) (mkDatabase ∅ 2147483648)
  = (mkResponse 500 InternalServerErrorPage, mkDatabase ∅ 2147483648).
Proof. vm_compute. reflexivity. Qed.

Example post_body_that_does_not_parse :
  handle (POST Malformed dt0) db1 = (mkResponse 400 BadRequestPage, db1)
  ∧ handle (PATCH 1 NotJson) db1
    = (mkResponse 415 UnsupportedMediaTypePage, db1).
Proof. vm_compute. split; reflexivity. Qed.

(** ** Validation *)


Lemma validate_field_inr fld data v :
  validate_field fld data = inr v → v = supplied data (field_name fld).
Proof.
  unfold validate_field, supplied.
  destruct (data !! field_name fld) as [x|]; simpl.
  - destruct x; simpl; destruct (required fld); intros H; by simplify_eq.
  - destruct (required fld); intros H; by simplify_eq.
Qed.


Lemma validate_field_rejected fld data x :
  data !! field_name fld = Some x → x ≠ JNull → str_validator x = None →
  validate_field fld data = inl (str_error (field_name fld)).
Proof.
  intros Hd Hx Hs. unfold validate_field. rewrite Hd.
  destruct x; simpl in *; try discriminate; try reflexivity. done.
Qed.


Lemma validate_model_values model data values :
  validate_model model data = (values, []) →
  ∀ f, values !! f = if bool_decide (f ∈ field_name <$> model)
                     then Some (supplied data f) else None.
Proof.
  revert values. induction model as [|fld rest IH]; intros values;
    cbn [validate_model].
  - intros [= <-] f. rewrite lookup_empty, fmap_nil.
    rewrite bool_decide_eq_false_2; [done | apply not_elem_of_nil].
  - destruct (validate_model rest data) as [vs es] eqn:Hrest.
    destruct (validate_field fld data) as [e|v] eqn:Hfld; [discriminate|].
    intros [= <- ->] f. specialize (IH vs eq_refl f).
    apply validate_field_inr in Hfld as ->. rewrite fmap_cons.
    destruct (decide (f = field_name fld)) as [->|Hne].
    + rewrite lookup_insert_eq.
      rewrite bool_decide_eq_true_2; [done | apply elem_of_cons; by left].
    + rewrite lookup_insert_ne by done. rewrite IH.
      apply (f_equal (λ b : bool, if b then _ else _)).
      apply bool_decide_ext. rewrite elem_of_cons. naive_solver.
Qed.

Lemma validate_model_error model data fld e :
  fld ∈ model → validate_field fld data = inl e →
  e ∈ (validate_model model data).2.
Proof.
  induction model as [|fld' rest IH]; intros Hin Hfld.
  - by apply elem_of_nil in Hin.
  - simpl. destruct (validate_model rest data) as [vs es] eqn:Hrest.
    apply elem_of_cons in Hin as [<- | Hin].
    + rewrite Hfld. simpl. apply elem_of_cons; by left.
    + specialize (IH Hin Hfld). simpl in IH.
      destruct (validate_field fld' data); simpl; [|done].
      apply elem_of_cons; by right.
Qed.

Lemma validate_model_no_error model data :
  (∀ fld, fld ∈ model → ∃ v, validate_field fld data = inr v) →
  (validate_model model data).2 = [].
Proof.
  induction model as [|fld rest IH]; intros Hall; [done|].
  simpl. destruct (validate_model rest data) as [vs es] eqn:Hrest.
  destruct (Hall fld) as [v ->]; [apply elem_of_cons; by left|]. simpl.
  apply IH. intros fld' Hin. apply Hall, elem_of_cons. by right.
Qed.

Lemma validate_obj_Ok model data v :
  validate model (JObj data) = Ok v
  ↔ bindable data ∧ validate_model model data = (v, []).
Proof.
  unfold validate, model_dict, bindable.
  destruct (data !! "__pydantic_self__"); [split; [done|by intros [? _]]|].
  destruct (validate_model model data) as [vs [|e es]]; split;
    try (intros [_ H]); try (intros H); try split; by simplify_eq.
Qed.

Lemma validate_obj_errors model data e es :
  bindable data →
  (validate_model model data).2 = e :: es →
  validate model (JObj data)
  = Raise (HttpError 400 (JArr (error_json <$> e :: es))).
Proof.
  unfold validate, model_dict, bindable. intros ->.
  destruct (validate_model model data) as [vs errs]; simpl. by intros ->.
Qed.

Lemma validate_not_bindable model data :
  ¬ bindable data → validate model (JObj data) = Raise TypeError.
Proof.
  unfold validate, bindable.
  destruct (data !! "__pydantic_self__"); [done|]. by intros [].
Qed.

Lemma validate_not_obj model j :
  (∀ m, j ≠ JObj m) → validate model j = Raise TypeError.
Proof. intros H. destruct j; try reflexivity. by destruct (H m). Qed.

Lemma validate_PatchAd_Ok data :
  bindable data ∧ patchable data ↔ ∃ v, validate PatchAd (JObj data) = Ok v.
Proof.
  split.
  - intros [Hbind Hp].
    assert ((validate_model PatchAd data).2 = []) as Hnil.
    { apply validate_model_no_error. intros fld Hin.
      assert (required fld = false) as Hr.
      { unfold PatchAd in Hin. set_solver. }
      unfold validate_field. rewrite Hr.
      destruct (data !! field_name fld) as [x|] eqn:Hx; [|eauto].
      destruct (Hp (field_name fld) x) as [-> | [s Hs]]; [|done|eauto|].
      { apply list_elem_of_fmap. eauto. }
      rewrite Hs. destruct x; eauto. }
    destruct (validate_model PatchAd data) as [vs es] eqn:Hvm. simpl in Hnil.
    subst es. exists vs. by apply validate_obj_Ok.
  - intros [v [Hbind Hv]%validate_obj_Ok]. split; [done|]. intros f x Hin Hx.
    apply list_elem_of_fmap in Hin as [fld [-> Hin]].
    destruct (str_validator x) as [s|] eqn:Hs; [eauto|].
    assert (x = JNull ∨ x ≠ JNull) as [|Hnn] by (destruct x; eauto); [by left|].
    pose proof (validate_model_error PatchAd data fld _ Hin
                  (validate_field_rejected fld data x Hx Hnn Hs)) as Herr.
    rewrite Hv in Herr. by apply elem_of_nil in Herr.
Qed.

(** ** The handlers, case by case *)

Lemma dict_get_validated model data v f :
  validate model (JObj data) = Ok v → f ∈ field_name <$> model →
  v !! f = Some (supplied data f) ∧ dict_get v f = supplied data f.
Proof.
  intros [_ Hv]%validate_obj_Ok Hin.
  pose proof (validate_model_values _ _ _ Hv f) as Hf.
  rewrite bool_decide_eq_true_2 in Hf by done.
  unfold dict_get. by rewrite Hf.
Qed.

Lemma assign_if_truthy_owner v setter ad :
  (∀ s a, ad_owner (setter s a) = ad_owner a) →
  (∀ s a, created_at (setter s a) = created_at a) →
  ad_owner (assign_if_truthy v setter ad) = ad_owner ad
  ∧ created_at (assign_if_truthy v setter ad) = created_at ad.
Proof.
  intros Ho Hc. unfold assign_if_truthy.
  destruct v as [s|]; [destruct (truthy s)|]; auto.
Qed.

Lemma patched_frame data ad :
  ad_owner (patched data ad) = ad_owner ad
  ∧ created_at (patched data ad) = created_at ad.
Proof.
  unfold patched.
  destruct (assign_if_truthy_owner (supplied data "ad_body") set_ad_body
              (assign_if_truthy (supplied data "ad_name") set_ad_name ad))
    as [-> ->]; [done..|].
  by apply assign_if_truthy_owner.
Qed.



Lemma patch_validated ad_id data v db :
  validate PatchAd (JObj data) = Ok v →
  AdView.patch ad_id (JObj data) db
  = match advertisements db !! ad_id with
    | None => (Raise (HttpError 404 (JStr "advertisement not found")), db)
    | Some ad =>
        match flush_update ad_id ad (patched data ad) db with
        | (Ok _, db') => (Ok success, db')
        | (Raise e, db') => (Raise e, db')
        end
    end.
Proof.
  intros Hv. unfold AdView.patch, get_ad. cbn [request_json].
  change (Ok (JObj data) ≫= validate PatchAd)
    with (validate PatchAd (JObj data)).
  rewrite Hv.
  destruct (advertisements db !! ad_id) as [ad|]; [|done].
  destruct (dict_get_validated PatchAd data v "ad_name" Hv) as [_ ->];
    [unfold PatchAd; set_solver|].
  destruct (dict_get_validated PatchAd data v "ad_body" Hv) as [_ ->];
    [unfold PatchAd; set_solver|].
  reflexivity.
Qed.

Lemma patch_rejected ad_id sent db e :
  request_json sent ≫= validate PatchAd = Raise e →
  AdView.patch ad_id sent db = (Raise e, db).
Proof. intros Hv. unfold AdView.patch. by rewrite Hv. Qed.

Lemma post_rejected sent now db e :
  request_json sent ≫= validate CreateAd = Raise e →
  AdView.post sent now db = (Raise e, db).
Proof. intros Hv. unfold AdView.post. by rewrite Hv. Qed.

(** What reading and validating a body can raise. *)
Lemma validate_raise_cases model j e :
  validate model j = Raise e →
  e = TypeError
  ∨ ∃ e0 es, e = HttpError 400 (JArr (error_json <$> e0 :: es)).
Proof.
  destruct j; try (intros [= <-]; by left).
  unfold validate, model_dict.
  destruct (m !! "__pydantic_self__"); [intros [= <-]; by left|].
  destruct (validate_model model m) as [vs [|e0 es]]; intros H; simplify_eq.
  right. eauto.
Qed.

Lemma body_cases model (sent : body_data) :
  (∃ data v, sent = JObj data ∧ validate model (JObj data) = Ok v)
  ∨ ∃ e, request_json sent ≫= validate model = Raise e
         ∧ (e = TypeError ∨ e = BadRequest ∨ e = UnsupportedMediaType
            ∨ ∃ e0 es, e = HttpError 400 (JArr (error_json <$> e0 :: es))).
Proof.
  destruct sent as [j| |].
  - change (request_json j ≫= validate model) with (validate model j).
    destruct (validate model j) as [v|e] eqn:Hv.
    + left. destruct j; try discriminate. eauto.
    + right. exists e. split; [done|].
      destruct (validate_raise_cases model j e Hv) as [-> | ?]; auto.
  - right. exists BadRequest. auto.
  - right. exists UnsupportedMediaType. auto.
Qed.

(** What a PATCH can do to the database: nothing, or replace the row it
    addresses by one with the same owner and creation time. *)
Lemma patch_effect ad_id (sent : body_data) db :
  (AdView.patch ad_id sent db).2 = db
  ∨ ∃ data ad, sent = JObj data ∧ advertisements db !! ad_id = Some ad
      ∧ (AdView.patch ad_id sent db).2
        = mkDatabase (<[ad_id := patched data ad]> (advertisements db))
                     (advertisements_id_seq db).
Proof.
  destruct (body_cases PatchAd sent) as [(data & v & -> & Hv) | (e & He & _)].
  - rewrite (patch_validated _ _ _ _ Hv).
    destruct (advertisements db !! ad_id) as [ad|] eqn:Had; [|by left].
    unfold flush_update, update_commit.
    case_bool_decide; [by left|]. case_bool_decide; [by left|].
    right. by exists data, ad.
  - rewrite (patch_rejected _ _ _ _ He). by left.
Qed.

(** What a POST can do: nothing, draw a sequence value, or draw one and
    store a row under it. *)
Lemma post_effect sent now db :
  (AdView.post sent now db).2 = db
  ∨ (AdView.post sent now db).2
    = mkDatabase (advertisements db) (advertisements_id_seq db + 1)
  ∨ ∃ ad, advertisements db !! advertisements_id_seq db = None
      ∧ ¬ name_taken (ad_name ad) (advertisements db)
      ∧ (AdView.post sent now db).2
        = mkDatabase (<[advertisements_id_seq db := ad]> (advertisements db))
                     (advertisements_id_seq db + 1).
Proof.
  unfold AdView.post.
  destruct (request_json sent ≫= validate CreateAd) as [v|e]; [|by left].
  destruct (_ ≫= _) as [[[n b] o]|e]; [|by left].
  unfold flush_insert.
  destruct (negb _); [by left|]. destruct (_ <? _); [by left|].
  unfold insert_commit.
  destruct n as [n|]; [|by right; left].
  destruct b as [b|]; [|by right; left].
  destruct o as [o|]; [|by right; left].
  case_bool_decide as Hc; [by right; left|].
  right; right. eexists. split_and!; [| |reflexivity].
  - destruct (advertisements db !! advertisements_id_seq db) eqn:E; [|done].
    destruct Hc. left. eauto.
  - simpl. tauto.
Qed.

Lemma delete_effect ad_id db :
  (AdView.delete ad_id db).2 = db
  ∨ (AdView.delete ad_id db).2
    = mkDatabase (delete ad_id (advertisements db)) (advertisements_id_seq db).
Proof.
  unfold AdView.delete, get_ad.
  destruct (advertisements db !! ad_id); [by right | by left].
Qed.

Lemma get_effect ad_id db : (AdView.get ad_id db).2 = db.
Proof. reflexivity. Qed.

Lemma handle_snd req db : (handle req db).2 = (dispatch req db).2.
Proof. unfold handle. by destruct (dispatch req db). Qed.

Lemma handle_fst req db :
  (handle req db).1 = make_response (dispatch req db).1.
Proof. unfold handle. by destruct (dispatch req db). Qed.
(** ** Invariants of the reachable states *)

Lemma handle_ids_below_seq req db :
  ids_below_seq db → ids_below_seq (handle req db).2.
Proof.
  intros Hinv. rewrite handle_snd. destruct req as [j now|i|i j|i]; simpl.
  - destruct (post_effect j now db) as [-> | [-> | (ad & _ & _ & ->)]];
      [done| |]; intros k; simpl.
    + intros Hk%Hinv. lia.
    + destruct (decide (k = advertisements_id_seq db)) as [->|Hne]; [lia|].
      rewrite lookup_insert_ne by done. intros Hk%Hinv. lia.
  - done.
  - destruct (patch_effect i j db) as [-> | (data & ad & _ & Had & ->)];
      [done|]. intros k; simpl.
    destruct (decide (k = i)) as [->|Hne]; [intros _; apply Hinv; eauto|].
    rewrite lookup_insert_ne by done. apply Hinv.
  - destruct (delete_effect i db) as [-> | ->]; [done|]. intros k; simpl.
    destruct (decide (k = i)) as [->|Hne].
    + rewrite lookup_delete_eq. by intros [? ?].
    + rewrite lookup_delete_ne by done. apply Hinv.
Qed.

Lemma reachable_ids_below_seq db : reachable db → ids_below_seq db.
Proof.
  induction 1 as [|req db _ IH].
  - intros i. simpl. rewrite lookup_empty. by intros [? ?].
  - by apply handle_ids_below_seq.
Qed.

Lemma handle_retired ad_id req db :
  retired ad_id db → retired ad_id (handle req db).2.
Proof.
  intros [Hnone Hlt]. rewrite handle_snd.
  destruct req as [j now|i|i j|i]; simpl.
  - destruct (post_effect j now db) as [-> | [-> | (ad & _ & _ & ->)]];
      [done| |]; split; simpl; try lia; [done|].
    rewrite lookup_insert_ne by lia. done.
  - done.
  - destruct (patch_effect i j db) as [-> | (data & ad & _ & Had & ->)];
      [done|]. split; simpl; [|done].
    rewrite lookup_insert_ne; [done|]. intros ->. congruence.
  - destruct (delete_effect i db) as [-> | ->]; [done|]. split; simpl; [|done].
    destruct (decide (i = ad_id)) as [->|Hne].
    + apply lookup_delete_eq.
    + by rewrite lookup_delete_ne.
Qed.

Lemma run_retired ad_id reqs db :
  retired ad_id db → retired ad_id (run reqs db).
Proof.
  revert db. induction reqs as [|req rest IH]; intros db H; [done|].
  simpl. by apply IH, handle_retired.
Qed.


(** *** Uniqueness of [ad_name] *)

Lemma patch_effect_names ad_id (sent : body_data) db :
  (AdView.patch ad_id sent db).2 = db
  ∨ ∃ ad new, advertisements db !! ad_id = Some ad
      ∧ (ad_name new = ad_name ad
         ∨ ¬ name_taken_by_other ad_id (ad_name new) (advertisements db))
      ∧ (AdView.patch ad_id sent db).2
        = mkDatabase (<[ad_id := new]> (advertisements db))
                     (advertisements_id_seq db).
Proof.
  destruct (body_cases PatchAd sent) as [(data & v & -> & Hv) | (e & He & _)].
  - rewrite (patch_validated _ _ _ _ Hv).
    destruct (advertisements db !! ad_id) as [ad|] eqn:Had; [|by left].
    unfold flush_update, update_commit.
    case_bool_decide; [by left|]. case_bool_decide as Hc; [by left|].
    right. exists ad, (patched data ad). split_and!; [done| |done].
    destruct (decide (ad_name (patched data ad) = ad_name ad)); [by left|].
    right. intros Ht. apply Hc. done.
  - rewrite (patch_rejected _ _ _ _ He). by left.
Qed.

Lemma handle_names_unique req db :
  names_unique db → names_unique (handle req db).2.
Proof.
  intros Hinv. rewrite handle_snd. destruct req as [j now|i|i j|i]; simpl.
  - destruct (post_effect j now db) as [-> | [-> | (ad & Hnone & Hfree & ->)]];
      [done..|].
    intros k l a b; simpl.
    destruct (decide (k = advertisements_id_seq db)) as [->|Hk];
      destruct (decide (l = advertisements_id_seq db)) as [->|Hl];
      rewrite ?lookup_insert_eq, ?lookup_insert_ne by done; try done.
    + intros [= <-] Hb Hab. destruct Hfree. by exists l, b.
    + intros Ha [= <-] Hab. destruct Hfree. by exists k, a.
    + apply Hinv.
  - done.
  - destruct (patch_effect_names i j db)
      as [-> | (ad & new & Had & Hfree & ->)]; [done|].
    intros k l a b; simpl.
    destruct (decide (k = i)) as [->|Hk]; destruct (decide (l = i)) as [->|Hl];
      rewrite ?lookup_insert_eq, ?lookup_insert_ne by done; try done.
    + intros [= <-] Hb Hab. destruct Hfree as [Hsame | Hfree].
      * apply (Hinv i l ad b); [done..|congruence].
      * destruct Hfree. exists l, b. split_and!; [done|congruence|done].
    + intros Ha [= <-] Hab. destruct Hfree as [Hsame | Hfree].
      * apply (Hinv k i a ad); [done..|congruence].
      * destruct Hfree. exists k, a. split_and!; [done|congruence|done].
    + apply Hinv.
  - destruct (delete_effect i db) as [-> | ->]; [done|].
    intros k l a b; simpl.
    intros [_ Ha]%lookup_delete_Some [_ Hb]%lookup_delete_Some.
    by apply Hinv.
Qed.

(** The data model's invariant holds in every reachable state. *)
Lemma reachable_names_unique db : reachable db → names_unique db.
Proof.
  induction 1 as [|req db _ IH].
  - intros i j a b Ha. simpl in Ha. by rewrite lookup_empty in Ha.
  - by apply handle_names_unique.
Qed.


(** *** POST and PATCH on bodies that validate *)

Lemma validate_CreateAd_strings data n b o :
  bindable data →
  data !! "ad_name" = Some (JStr n) → data !! "ad_body" = Some (JStr b) →
  data !! "ad_owner" = Some (JStr o) →
  validate CreateAd (JObj data)
  = Ok (<["ad_name" := Some n]> (<["ad_body" := Some b]>
       (<["ad_owner" := Some o]> ∅))).
Proof.
  intros Hbind Hn Hb Ho.
  unfold validate, model_dict, CreateAd, validate_model, validate_field.
  rewrite Hbind. simpl. rewrite Hn, Hb, Ho. reflexivity.
Qed.

Lemma post_validated data n b o now db :
  bindable data →
  data !! "ad_name" = Some (JStr n) → data !! "ad_body" = Some (JStr b) →
  data !! "ad_owner" = Some (JStr o) →
  AdView.post (JObj data) now db
  = match flush_insert (Some n) (Some b) (Some o) now db with
    | (Ok (new_id, ad), db') => (Ok (created_json new_id ad), db')
    | (Raise e, db') => (Raise e, db')
    end.
Proof.
  intros Hbind Hn Hb Ho. unfold AdView.post. cbn [request_json].
  change (Ok (JObj data) ≫= validate CreateAd)
    with (validate CreateAd (JObj data)).
  rewrite (validate_CreateAd_strings data n b o Hbind Hn Hb Ho). reflexivity.
Qed.

Lemma post_not_bindable data now db :
  ¬ bindable data → AdView.post (JObj data) now db = (Raise TypeError, db).
Proof.
  intros Hnb. apply post_rejected. cbn [request_json].
  change (Ok (JObj data) ≫= validate CreateAd)
    with (validate CreateAd (JObj data)).
  by apply validate_not_bindable.
Qed.

Lemma patch_not_bindable ad_id data db :
  ¬ bindable data → AdView.patch ad_id (JObj data) db = (Raise TypeError, db).
Proof.
  intros Hnb. apply patch_rejected. cbn [request_json].
  change (Ok (JObj data) ≫= validate PatchAd)
    with (validate PatchAd (JObj data)).
  by apply validate_not_bindable.
Qed.

Lemma bindable_dec data : bindable data ∨ ¬ bindable data.
Proof. unfold bindable. destruct (data !! "__pydantic_self__"); eauto. Qed.


(** Whatever stops an INSERT before or at the constraints, no row is
    written. *)
Lemma flush_insert_raise name body owner now db e :
  (flush_insert name body owner now db).1 = Raise e →
  advertisements (flush_insert name body owner now db).2 = advertisements db
  ∧ (e = ValueError ∨ e = DataError ∨ e = IntegrityError).
Proof.
  unfold flush_insert.
  destruct (negb _); [intros [= <-]; auto|].
  destruct (_ <? _); [intros [= <-]; auto|].
  unfold insert_commit.
  destruct name, body, owner; try case_bool_decide; simpl; intros Hr;
    simplify_eq; auto.
Qed.

Lemma flush_update_ok ad_id old new db :
  ad_name new = ad_name old
  ∨ adaptable (ad_name new) = true
    ∧ ¬ name_taken_by_other ad_id (ad_name new) (advertisements db) →
  ad_body new = ad_body old ∨ adaptable (ad_body new) = true →
  ad_owner new = ad_owner old →
  flush_update ad_id old new db
  = (Ok (), mkDatabase (<[ad_id := new]> (advertisements db))
                       (advertisements_id_seq db)).
Proof.
  intros Hname Hbody Howner. unfold flush_update, update_commit.
  rewrite bool_decide_eq_false_2.
  - rewrite bool_decide_eq_false_2; [done|]. intros [Hne Ht]. tauto.
  - intros [[Hne Hf] | [[Hne Hf] | [Hne _]]]; [| |done].
    + destruct Hname as [? | [Ha _]]; congruence.
    + destruct Hbody; congruence.
Qed.

Lemma flush_update_raise ad_id old new db e :
  (flush_update ad_id old new db).1 = Raise e →
  (flush_update ad_id old new db).2 = db
  ∧ (e = ValueError ∨ e = IntegrityError).
Proof.
  unfold flush_update, update_commit.
  case_bool_decide; [intros [= <-]; auto|].
  case_bool_decide; [intros [= <-]; auto|]. discriminate.
Qed.

Lemma patch_applied db ad_id ad data :
  advertisements db !! ad_id = Some ad →
  bindable data → patchable data →
  ad_name (patched data ad) = ad_name ad
  ∨ adaptable (ad_name (patched data ad)) = true
    ∧ ¬ name_taken_by_other ad_id (ad_name (patched data ad))
          (advertisements db) →
  ad_body (patched data ad) = ad_body ad
  ∨ adaptable (ad_body (patched data ad)) = true →
  handle (PATCH ad_id (JObj data)) db
  = (mkResponse 200 (JsonBody success),
     mkDatabase (<[ad_id := patched data ad]> (advertisements db))
                (advertisements_id_seq db)).
Proof.
  intros Had Hbind Hp Hname Hbody.
  destruct (proj1 (validate_PatchAd_Ok data) (conj Hbind Hp)) as [v Hv].
  unfold handle, dispatch.
  rewrite (patch_validated _ _ _ _ Hv), Had.
  rewrite (flush_update_ok _ _ _ _ Hname Hbody); [done|].
  apply patched_frame.
Qed.

(** Whatever the body and whatever the outcome, a PATCH leaves the owner and
    the creation time of the row it addresses, and every other row, alone. *)
Lemma patch_frame_any_body db ad_id ad (sent : body_data) :
  advertisements db !! ad_id = Some ad →
  let db' := (handle (PATCH ad_id sent) db).2 in
  (∃ ad', advertisements db' !! ad_id = Some ad'
          ∧ ad_owner ad' = ad_owner ad ∧ created_at ad' = created_at ad)
  ∧ (∀ i, i ≠ ad_id → advertisements db' !! i = advertisements db !! i)
  ∧ advertisements_id_seq db' = advertisements_id_seq db.
Proof.
  intros Had db'. subst db'. rewrite handle_snd. simpl.
  destruct (patch_effect ad_id sent db) as [-> | (data & ad0 & _ & Had0 & ->)].
  - split_and!; [|done..]. by exists ad.
  - simpl. assert (ad0 = ad) as -> by congruence. split_and!; [| |done].
    + exists (patched data ad). rewrite lookup_insert_eq.
      destruct (patched_frame data ad) as [-> ->]. done.
    + intros i Hi. by rewrite lookup_insert_ne.
Qed.



Lemma patchable_intro data v :
  validate PatchAd (JObj data) = Ok v → patchable data.
Proof. intros Hv. apply validate_PatchAd_Ok. eauto. Qed.




(** ** The contract *)




(** C3.  A create whose [ad_name] is already stored does reach the store's
    uniqueness check, which raises [IntegrityError]; nothing catches it, and
    the answer is the 500 page, not a 4xx. *)
Theorem post_duplicate_name_unhandled db data n b o now :
  data !! "ad_name" = Some (JStr n) → data !! "ad_body" = Some (JStr b) →
  data !! "ad_owner" = Some (JStr o) →
  name_taken n (advertisements db) →
  (insert_commit (Some n) (Some b) (Some o) now db).1 = Raise IntegrityError
  ∧ (handle (POST (JObj data) now) db).1
    = mkResponse 500 InternalServerErrorPage
  ∧ advertisements (handle (POST (JObj data) now) db).2 = advertisements db.
Proof.
  intros Hn Hb Ho Htaken.
  assert ((insert_commit (Some n) (Some b) (Some o) now db).1
          = Raise IntegrityError) as Hins.
  { unfold insert_commit. by rewrite bool_decide_eq_true_2 by (by right). }
  split; [done|]. unfold handle, dispatch.
  destruct (bindable_dec data) as [Hbind | Hnb].
  - rewrite (post_validated data n b o now db Hbind Hn Hb Ho).
    destruct (flush_insert (Some n) (Some b) (Some o) now db)
      as [[[i ad]|e] db'] eqn:Hflush.
    + exfalso. revert Hflush Hins. unfold flush_insert.
      destruct (negb _); [discriminate|]. destruct (_ <? _); [discriminate|].
      intros ->. discriminate.
    + pose proof (flush_insert_raise (Some n) (Some b) (Some o) now db e)
        as Hraise.
      rewrite Hflush in Hraise.
      destruct (Hraise eq_refl) as [Hrows [-> | [-> | ->]]]; by split.
  - by rewrite (post_not_bindable data now db Hnb).
Qed.

Lemma post_duplicate_name_unhandled_witness :
  (insert_commit (Some "x") (Some "y") (Some "z") dt1 db1).1
  = Raise IntegrityError
  ∧ (handle (POST payload_xyz dt1) db1).1
    = mkResponse 500 InternalServerErrorPage
  ∧ advertisements (handle (POST payload_xyz dt1) db1).2 = advertisements db1.
Proof.
  apply (post_duplicate_name_unhandled db1
           (list_to_map [("ad_name", JStr "x"); ("ad_body", JStr "y");
                         ("ad_owner", JStr "z")]) "x" "y" "z" dt1);
    [reflexivity..|].
  exists 1, (mkAdvertisement "x" "y" "z" dt0). split; reflexivity.
Defined.









(** C7, as amended.  When an object passes validation, the returned dict has
    exactly the recognized fields as keys: a recognized field the input
    carries as a string keeps that string, a field absent from the input is
    present with value [None] instead of being absent, and keys that are
    not recognized are dropped. *)
Theorem validate_returns_declared_fields model data v :
  validate model (JObj data) = Ok v →
  dom v = list_to_set (field_name <$> model)
  ∧ (∀ f s, f ∈ field_name <$> model → data !! f = Some (JStr s) →
            v !! f = Some (Some s))
  ∧ (∀ f, f ∈ field_name <$> model → data !! f = None → v !! f = Some None)
  ∧ (∀ k, k ∉ field_name <$> model → v !! k = None).
Proof.
  intros Hv. pose proof Hv as [_ Hvm]%validate_obj_Ok.
  pose proof (validate_model_values model data v Hvm) as Hval.
  assert (∀ f, f ∈ field_name <$> model → v !! f = Some (supplied data f))
    as Hin.
  { intros f Hf. rewrite Hval. by rewrite bool_decide_eq_true_2. }
  assert (∀ k, k ∉ field_name <$> model → v !! k = None) as Hout.
  { intros k Hk. rewrite Hval. by rewrite bool_decide_eq_false_2. }
  split_and!; [| | |done].
  - apply set_eq. intros k. rewrite elem_of_dom, elem_of_list_to_set.
    split.
    + intros [x Hx]. destruct (decide (k ∈ field_name <$> model)); [done|].
      rewrite Hout in Hx by done. discriminate.
    + intros Hk. rewrite Hin by done. eauto.
  - intros f s Hf Hd. rewrite Hin by done. unfold supplied. by rewrite Hd.
  - intros f Hf Hd. rewrite Hin by done. unfold supplied. by rewrite Hd.
Qed.

Lemma validate_returns_declared_fields_witness :
  let data : gmap string json :=
    list_to_map [("ad_name", JStr "new"); ("note", JInt 3)] in
  let v : gmap string (option string) :=
    list_to_map [("ad_name", Some "new"); ("ad_body", None);
                 ("ad_owner", None)] in
  dom v = list_to_set (field_name <$> PatchAd)
  ∧ (∀ f s, f ∈ field_name <$> PatchAd → data !! f = Some (JStr s) →
            v !! f = Some (Some s))
  ∧ (∀ f, f ∈ field_name <$> PatchAd → data !! f = None → v !! f = Some None)
  ∧ (∀ k, k ∉ field_name <$> PatchAd → v !! k = None).
Proof.
  apply (validate_returns_declared_fields PatchAd
           (list_to_map [("ad_name", JStr "new"); ("note", JInt 3)])).
  vm_compute. reflexivity.
Defined.

(** C7 as stated fails: a field absent from the input is not absent from
    the result. *)
Lemma validate_patch_keeps_absent_fields :
  let data : gmap string json := list_to_map [("ad_name", JStr "new")] in
  validate PatchAd (JObj data)
  = Ok (list_to_map [("ad_name", Some "new"); ("ad_body", None);
                     ("ad_owner", None)])
  ∧ data !! "ad_body" = None
  ∧ ∀ v, validate PatchAd (JObj data) = Ok v → v !! "ad_body" = Some None.
Proof.
  split_and!; [vm_compute; reflexivity | reflexivity |].
  intros v Hv. vm_compute in Hv. by simplify_eq.
Qed.

(** C8.  A body that is not a JSON object makes [validate] raise
    [TypeError], which is neither a [ValidationError] nor an [HttpError]:
    the answer to POST and to PATCH is the 500 page, where the contract
    asks for a 400 with an error list. *)
Theorem non_object_body_500 j now ad_id db :
  (∀ m, j ≠ JObj m) →
  validate CreateAd j = Raise TypeError
  ∧ validate PatchAd j = Raise TypeError
  ∧ handle (POST j now) db = (mkResponse 500 InternalServerErrorPage, db)
  ∧ handle (PATCH ad_id j) db = (mkResponse 500 InternalServerErrorPage, db).
Proof.
  intros Hj. pose proof (validate_not_obj CreateAd j Hj) as Hc.
  pose proof (validate_not_obj PatchAd j Hj) as Hp.
  split_and!; [done..| |].
  - unfold handle, dispatch. by rewrite (post_rejected j now db TypeError Hc).
  - unfold handle, dispatch.
    by rewrite (patch_rejected ad_id j db TypeError Hp).
Qed.

Lemma non_object_body_500_witness :
  validate CreateAd (JArr [JStr "x"]) = Raise TypeError
  ∧ validate PatchAd (JArr [JStr "x"]) = Raise TypeError
  ∧ handle (POST (JArr [JStr "x"]) dt0) db1
    = (mkResponse 500 InternalServerErrorPage, db1)
  ∧ handle (PATCH 1 (JArr [JStr "x"])) db1
    = (mkResponse 500 InternalServerErrorPage, db1).
Proof. apply (non_object_body_500 (JArr [JStr "x"]) dt0 1 db1). done. Defined.



Example patch_new_name_on_db1 :
  handle (PATCH 1 (obj [("ad_name", JStr "new"); ("ad_owner", JStr "q")])) db1
  = (mkResponse 200 (JsonBody success),
     mkDatabase {[ 1 := mkAdvertisement "new" "y" "z" dt0 ]} 2).
Proof. vm_compute. reflexivity. Qed.


(** C10.  PATCH with the empty object on a stored id answers 200
    [{status: success}] and leaves the database exactly as it was. *)
Theorem patch_empty_object_identity db ad_id ad :
  advertisements db !! ad_id = Some ad →
  handle (PATCH ad_id (JObj ∅)) db = (mkResponse 200 (JsonBody success), db).
Proof.
  intros Had.
  assert (patchable ∅) as Hp.
  { intros f x _ Hx. by rewrite lookup_empty in Hx. }
  assert (patched ∅ ad = ad) as Hid.
  { unfold patched, supplied. rewrite !lookup_empty. reflexivity. }
  rewrite (patch_applied db ad_id ad ∅ Had); rewrite ?Hid;
    [|done|done|by left|by left].
  rewrite insert_id by done. by destruct db.
Qed.

Lemma patch_empty_object_identity_witness :
  handle (PATCH 1 (JObj ∅)) db1 = (mkResponse 200 (JsonBody success), db1).
Proof.
  apply (patch_empty_object_identity db1 1 (mkAdvertisement "x" "y" "z" dt0)).
  reflexivity.
Defined.



Example patch_empty_strings_on_db1 :
  handle (PATCH 1 (obj [("ad_name", JStr ""); ("ad_body", JStr "")])) db1
  = (mkResponse 200 (JsonBody success), db1).
Proof. vm_compute. reflexivity. Qed.


(** *** Present but empty is the same as absent *)

Lemma validate_field_delete_empty fld data f :
  required fld = false → data !! f = Some (JStr "") →
  match validate_field fld data, validate_field fld (delete f data) with
  | inl e, inl e' => e = e'
  | inr _, inr _ => True
  | _, _ => False
  end.
Proof.
  intros Hr Hf. unfold validate_field. rewrite Hr.
  destruct (decide (field_name fld = f)) as [->|Hne].
  - rewrite Hf, lookup_delete_eq. done.
  - rewrite lookup_delete_ne by done.
    destruct (data !! field_name fld) as [x|]; [|done].
    destruct x; simpl; done.
Qed.

Lemma validate_model_delete_empty model data f :
  (∀ fld, fld ∈ model → required fld = false) →
  data !! f = Some (JStr "") →
  (validate_model model (delete f data)).2 = (validate_model model data).2.
Proof.
  intros Hopt Hf. induction model as [|fld rest IH]; [done|].
  cbn [validate_model].
  destruct (validate_model rest data) as [vs es].
  destruct (validate_model rest (delete f data)) as [vs' es'].
  simpl in IH. rewrite IH by (intros ? ?; apply Hopt, elem_of_cons; by right).
  pose proof (validate_field_delete_empty fld data f) as Hfld.
  destruct (validate_field fld data), (validate_field fld (delete f data));
    simpl; try done.
  - rewrite Hfld; [done| |done]. apply Hopt, elem_of_cons. by left.
  - destruct Hfld; [|done]. apply Hopt, elem_of_cons. by left.
  - destruct Hfld; [|done]. apply Hopt, elem_of_cons. by left.
Qed.

Lemma patched_delete_empty data f ad :
  f = "ad_name" ∨ f = "ad_body" → data !! f = Some (JStr "") →
  patched (delete f data) ad = patched data ad.
Proof.
  intros Hf Hd. unfold patched, supplied. destruct Hf as [-> | ->].
  - rewrite lookup_delete_eq, (lookup_delete_ne data "ad_name" "ad_body"), Hd
      by done. reflexivity.
  - rewrite lookup_delete_eq, (lookup_delete_ne data "ad_body" "ad_name"), Hd
      by done. reflexivity.
Qed.

(** X2.  The handler applies a field when its value is truthy, not when it
    is merely present: a PATCH that maps [ad_name] or [ad_body] to the empty
    string answers and acts as the same PATCH without that key. *)
Lemma patch_empty_string_as_absent db ad_id data f :
  f = "ad_name" ∨ f = "ad_body" → data !! f = Some (JStr "") →
  handle (PATCH ad_id (JObj data)) db
  = handle (PATCH ad_id (JObj (delete f data))) db.
Proof.
  intros Hf Hd.
  assert (bindable (delete f data) ↔ bindable data) as Hbind.
  { unfold bindable. rewrite lookup_delete_ne; [done|].
    by destruct Hf as [-> | ->]. }
  unfold handle, dispatch.
  destruct (bindable_dec data) as [Hb | Hnb].
  2:{ rewrite (patch_not_bindable _ data db Hnb).
      rewrite (patch_not_bindable _ (delete f data) db); [done|].
      by rewrite Hbind. }
  pose proof (proj2 Hbind Hb) as Hb'.
  pose proof (validate_model_delete_empty PatchAd data f) as Herrs.
  rewrite Hd in Herrs.
  specialize (Herrs ltac:(unfold PatchAd; set_solver) eq_refl).
  destruct (validate_model PatchAd data) as [vs es] eqn:Hvm.
  destruct (validate_model PatchAd (delete f data)) as [vs' es'] eqn:Hvm'.
  simpl in Herrs. subst es'. destruct es as [|e es].
  - pose proof (proj2 (validate_obj_Ok PatchAd data vs) (conj Hb Hvm)) as Hv.
    pose proof (proj2 (validate_obj_Ok PatchAd (delete f data) vs')
                  (conj Hb' Hvm')) as Hv'.
    rewrite (patch_validated _ _ _ _ Hv), (patch_validated _ _ _ _ Hv').
    destruct (advertisements db !! ad_id) as [ad|]; [|done].
    by rewrite (patched_delete_empty data f) by done.
  - assert ((validate_model PatchAd data).2 = e :: es) as H1
      by (by rewrite Hvm).
    assert ((validate_model PatchAd (delete f data)).2 = e :: es) as H2
      by (by rewrite Hvm').
    rewrite (patch_rejected ad_id (JObj data) db _
               (validate_obj_errors _ _ _ _ Hb H1)).
    rewrite (patch_rejected ad_id (JObj (delete f data)) db _
               (validate_obj_errors _ _ _ _ Hb' H2)).
    reflexivity.
Qed.

(** ** Further properties of the service *)

(** X1.  In every state reached from the empty table, no two stored
    advertisements share an [ad_name], and every stored id lies below the
    next value of the id sequence. *)
Theorem reachable_invariants db :
  reachable db → names_unique db ∧ ids_below_seq db.
Proof.
  intros Hreach. split.
  - by apply reachable_names_unique.
  - by apply reachable_ids_below_seq.
Qed.

Lemma reachable_invariants_witness : names_unique db2 ∧ ids_below_seq db2.
Proof.
  apply (reachable_invariants db2).
  apply (reachable_step (POST payload_wyz dt1)).
  apply (reachable_step (POST payload_xyz dt0)), reachable_init.
Defined.

Lemma patch_empty_string_as_absent_witness :
  let data : gmap string json :=
    list_to_map [("ad_body", JStr ""); ("ad_name", JStr "x")] in
  handle (PATCH 2 (JObj data)) db2
  = handle (PATCH 2 (JObj (delete "ad_body" data))) db2.
Proof.
  apply (patch_empty_string_as_absent db2 2
           (list_to_map [("ad_body", JStr ""); ("ad_name", JStr "x")])
           "ad_body").
  - by right.
  - reflexivity.
Defined.

Lemma validate_field_required_inl fld data :
  required fld = true → supplied data (field_name fld) = None →
  validate_field fld data = inl (create_error data (field_name fld)).
Proof.
  unfold supplied, validate_field, create_error. intros ->.
  destruct (data !! field_name fld) as [x|]; [|done].
  destruct x; simpl; intros H; by simplify_eq.
Qed.

Lemma validate_field_supplied fld data s :
  supplied data (field_name fld) = Some s →
  validate_field fld data = inr (Some s).
Proof.
  unfold supplied, validate_field.
  destruct (data !! field_name fld) as [x|]; [|done].
  destruct x; simpl; intros H; by simplify_eq.
Qed.

Lemma validate_CreateAd_supplied data v :
  validate CreateAd (JObj data) = Ok v →
  ∃ n b o, supplied data "ad_name" = Some n
           ∧ supplied data "ad_body" = Some b
           ∧ supplied data "ad_owner" = Some o.
Proof.
  intros [_ Hv]%validate_obj_Ok.
  assert (∀ fld, fld ∈ CreateAd → is_Some (supplied data (field_name fld)))
    as Hall.
  { intros fld Hin.
    destruct (supplied data (field_name fld)) as [s|] eqn:Hs; [eauto|].
    assert (required fld = true) as Hr by (unfold CreateAd in Hin; set_solver).
    pose proof (validate_model_error CreateAd data fld _ Hin
                  (validate_field_required_inl fld data Hr Hs)) as Herr.
    rewrite Hv in Herr. by apply elem_of_nil in Herr. }
  destruct (Hall (mkField "ad_name" true)) as [n Hn];
    [unfold CreateAd; set_solver|].
  destruct (Hall (mkField "ad_body" true)) as [b Hb];
    [unfold CreateAd; set_solver|].
  destruct (Hall (mkField "ad_owner" true)) as [o Ho];
    [unfold CreateAd; set_solver|].
  eauto 10.
Qed.

Lemma post_object data v now db :
  validate CreateAd (JObj data) = Ok v →
  AdView.post (JObj data) now db
  = match flush_insert (supplied data "ad_name") (supplied data "ad_body")
            (supplied data "ad_owner") now db with
    | (Ok (new_id, ad), db') => (Ok (created_json new_id ad), db')
    | (Raise e, db') => (Raise e, db')
    end.
Proof.
  intros Hv. unfold AdView.post. cbn [request_json].
  change (Ok (JObj data) ≫= validate CreateAd)
    with (validate CreateAd (JObj data)).
  rewrite Hv. unfold getitem.
  destruct (dict_get_validated CreateAd data v "ad_name" Hv) as [-> _];
    [unfold CreateAd; set_solver|].
  destruct (dict_get_validated CreateAd data v "ad_body" Hv) as [-> _];
    [unfold CreateAd; set_solver|].
  destruct (dict_get_validated CreateAd data v "ad_owner" Hv) as [-> _];
    [unfold CreateAd; set_solver|].
  reflexivity.
Qed.

Lemma post_raise_cases (sent : body_data) now db e :
  (AdView.post sent now db).1 = Raise e →
  advertisements (AdView.post sent now db).2 = advertisements db
  ∧ (e = TypeError ∨ e = ValueError ∨ e = DataError ∨ e = IntegrityError
     ∨ e = BadRequest ∨ e = UnsupportedMediaType
     ∨ ∃ e0 es, e = HttpError 400 (JArr (error_json <$> e0 :: es))).
Proof.
  destruct (body_cases CreateAd sent) as [(data & v & -> & Hv) | (e' & He & Hk)].
  - rewrite (post_object _ _ _ _ Hv).
    destruct (flush_insert _ _ _ now db) as [[[i ad]|e1] db'] eqn:Hflush;
      [discriminate|].
    intros [= <-]. simpl.
    pose proof (flush_insert_raise (supplied data "ad_name")
                  (supplied data "ad_body") (supplied data "ad_owner")
                  now db e1) as Hraise.
    rewrite Hflush in Hraise.
    destruct (Hraise eq_refl) as [Hrows [-> | [-> | ->]]]; auto 10.
  - rewrite (post_rejected _ _ _ _ He). simpl. intros [= <-].
    split; [done|]. destruct Hk as [-> | [-> | [-> | ?]]]; auto 10.
Qed.

Lemma patch_raise_cases ad_id (sent : body_data) db e :
  (AdView.patch ad_id sent db).1 = Raise e →
  (AdView.patch ad_id sent db).2 = db
  ∧ (e = TypeError ∨ e = ValueError ∨ e = IntegrityError
     ∨ e = BadRequest ∨ e = UnsupportedMediaType
     ∨ e = HttpError 404 (JStr "advertisement not found")
     ∨ ∃ e0 es, e = HttpError 400 (JArr (error_json <$> e0 :: es))).
Proof.
  destruct (body_cases PatchAd sent) as [(data & v & -> & Hv) | (e' & He & Hk)].
  - rewrite (patch_validated _ _ _ _ Hv).
    destruct (advertisements db !! ad_id) as [ad|];
      [|intros [= <-]; auto 10].
    destruct (flush_update ad_id ad (patched data ad) db)
      as [[u|e1] db'] eqn:Hflush; [discriminate|].
    intros [= <-]. simpl.
    pose proof (flush_update_raise ad_id ad (patched data ad) db e1) as Hraise.
    rewrite Hflush in Hraise.
    destruct (Hraise eq_refl) as [Hdb [-> | ->]]; auto 10.
  - rewrite (patch_rejected _ _ _ _ He). simpl. intros [= <-].
    split; [done|]. destruct Hk as [-> | [-> | [-> | ?]]]; auto 10.
Qed.

(** The exceptions that leave a view. *)
Lemma dispatch_raise_cases req db e :
  (dispatch req db).1 = Raise e →
  advertisements (dispatch req db).2 = advertisements db
  ∧ (e = TypeError ∨ e = ValueError ∨ e = DataError ∨ e = IntegrityError
     ∨ e = BadRequest ∨ e = UnsupportedMediaType
     ∨ e = HttpError 404 (JStr "advertisement not found")
     ∨ ∃ e0 es, e = HttpError 400 (JArr (error_json <$> e0 :: es))).
Proof.
  destruct req as [sent now|i|i sent|i]; simpl.
  - intros [Hrows He]%post_raise_cases. split; [done|].
    destruct He as [-> | [-> | [-> | [-> | [-> | [-> | ?]]]]]]; auto 10.
  - unfold AdView.get, get_ad.
    destruct (advertisements db !! i); simpl; intros H; simplify_eq; auto 10.
  - intros [Hdb He]%patch_raise_cases. split; [by rewrite Hdb|].
    destruct He as [-> | [-> | [-> | [-> | [-> | [-> | ?]]]]]]; auto 10.
  - unfold AdView.delete, get_ad.
    destruct (advertisements db !! i); simpl; intros H; simplify_eq; auto 10.
Qed.


(** X4.  A request that is not answered with 200 changes no row of the
    table: failed validation, an unknown id and a violated constraint all
    leave the stored advertisements as they were. *)
Theorem failed_request_keeps_rows req db :
  status (handle req db).1 ≠ 200%Z →
  advertisements (handle req db).2 = advertisements db.
Proof.
  rewrite handle_fst, handle_snd.
  destruct (dispatch req db).1 as [j|e] eqn:Hd; [simpl; done|].
  intros _. by destruct (dispatch_raise_cases req db e Hd) as [-> _].
Qed.

Lemma failed_request_keeps_rows_witness :
  advertisements (handle (POST payload_xyz dt1) db1).2 = advertisements db1.
Proof.
  apply (failed_request_keeps_rows (POST payload_xyz dt1) db1).
  vm_compute. discriminate.
Defined.

Lemma validate_model_all_supplied r1 r2 r3 data n b o :
  supplied data "ad_name" = Some n → supplied data "ad_body" = Some b →
  supplied data "ad_owner" = Some o →
  validate_model [mkField "ad_name" r1; mkField "ad_body" r2;
                  mkField "ad_owner" r3] data
  = (<["ad_name" := Some n]> (<["ad_body" := Some b]>
      (<["ad_owner" := Some o]> ∅)), []).
Proof.
  intros Hn Hb Ho. cbn [validate_model].
  rewrite (validate_field_supplied (mkField "ad_name" r1) data n Hn).
  rewrite (validate_field_supplied (mkField "ad_body" r2) data b Hb).
  rewrite (validate_field_supplied (mkField "ad_owner" r3) data o Ho).
  reflexivity.
Qed.

(** X5.  What [validate(CreateAd, ...)] returns always holds a string under
    each of [ad_name], [ad_body] and [ad_owner], and nothing else: the
    lookups [validated['...']] of [post] cannot fail and no column is
    handed [None]. *)
Theorem validate_CreateAd_result j v :
  validate CreateAd j = Ok v →
  ∃ data n b o,
    j = JObj data
    ∧ supplied data "ad_name" = Some n ∧ supplied data "ad_body" = Some b
    ∧ supplied data "ad_owner" = Some o
    ∧ v = <["ad_name" := Some n]> (<["ad_body" := Some b]>
           (<["ad_owner" := Some o]> ∅)).
Proof.
  intros Hv. destruct j; try discriminate. rename m into data.
  destruct (validate_CreateAd_supplied data v Hv) as (n & b & o & Hn & Hb & Ho).
  exists data, n, b, o. split_and!; try done.
  apply validate_obj_Ok in Hv as [_ Hv]. unfold CreateAd in Hv.
  rewrite (validate_model_all_supplied _ _ _ data n b o Hn Hb Ho) in Hv.
  by simplify_eq.
Qed.

Lemma validate_CreateAd_result_witness :
  ∃ data n b o,
    payload_xyz = JObj data
    ∧ supplied data "ad_name" = Some n ∧ supplied data "ad_body" = Some b
    ∧ supplied data "ad_owner" = Some o
    ∧ (<["ad_name" := Some "x"]> (<["ad_body" := Some "y"]>
        (<["ad_owner" := Some "z"]> ∅)) : gmap string (option string))
      = <["ad_name" := Some n]> (<["ad_body" := Some b]>
         (<["ad_owner" := Some o]> ∅)).
Proof.
  apply (validate_CreateAd_result payload_xyz). vm_compute. reflexivity.
Defined.

(** X6.  [CreateAd] is the stricter schema: an object it accepts is accepted
    by [PatchAd] too, with the same resulting dict. *)
Theorem validate_CreateAd_then_PatchAd data v :
  validate CreateAd (JObj data) = Ok v → validate PatchAd (JObj data) = Ok v.
Proof.
  intros Hv.
  destruct (validate_CreateAd_supplied data v Hv) as (n & b & o & Hn & Hb & Ho).
  apply validate_obj_Ok in Hv as [Hbind Hv]. apply validate_obj_Ok.
  split; [done|]. unfold CreateAd in Hv. unfold PatchAd.
  rewrite (validate_model_all_supplied _ _ _ data n b o Hn Hb Ho) in Hv.
  rewrite (validate_model_all_supplied _ _ _ data n b o Hn Hb Ho).
  by simplify_eq.
Qed.

Lemma validate_CreateAd_then_PatchAd_witness :
  validate PatchAd
    (JObj (list_to_map [("ad_name", JStr "x"); ("ad_body", JInt 3);
                        ("ad_owner", JStr "z")]))
  = Ok (list_to_map [("ad_name", Some "x"); ("ad_body", Some "3");
                     ("ad_owner", Some "z")]).
Proof.
  apply (validate_CreateAd_then_PatchAd
           (list_to_map [("ad_name", JStr "x"); ("ad_body", JInt 3);
                         ("ad_owner", JStr "z")])).
  vm_compute. reflexivity.
Defined.







(** *** Ids *)

Lemma handle_seq_mono req db :
  advertisements_id_seq db ≤ advertisements_id_seq (handle req db).2.
Proof.
  rewrite handle_snd. destruct req as [j now|i|i j|i]; simpl.
  - destruct (post_effect j now db) as [-> | [-> | (ad & _ & _ & ->)]];
      simpl; lia.
  - lia.
  - destruct (patch_effect i j db) as [-> | (data & ad & _ & _ & ->)];
      simpl; lia.
  - destruct (delete_effect i db) as [-> | ->]; simpl; lia.
Qed.

Lemma run_seq_mono reqs db :
  advertisements_id_seq db ≤ advertisements_id_seq (run reqs db).
Proof.
  revert db. induction reqs as [|req rest IH]; intros db; simpl; [lia|].
  pose proof (handle_seq_mono req db). pose proof (IH (handle req db).2). lia.
Qed.

Lemma created_json_inj i ad i' ad' :
  created_json i ad = created_json i' ad' → i = i'.
Proof.
  unfold created_json. intros H.
  apply (f_equal (λ j, match j with JObj m => m !! "id" | _ => None end)) in H.
  cbv beta iota in H. rewrite !lookup_insert_eq in H.
  assert (Z.of_N i = Z.of_N i') by congruence. lia.
Qed.

Lemma response_created_inv r i ad :
  make_response r = mkResponse 200 (JsonBody (created_json i ad)) →
  r = Ok (created_json i ad).
Proof.
  destruct r as [x|e]; [intros H; f_equal; unfold make_response in H;
                        congruence|].
  destruct e; unfold make_response, http_error_handler; intros H;
    discriminate H.
Qed.

Lemma post_created (sent : body_data) now db i ad :
  (handle (POST sent now) db).1 = mkResponse 200 (JsonBody (created_json i ad)) →
  i = advertisements_id_seq db
  ∧ advertisements_id_seq (handle (POST sent now) db).2
    = advertisements_id_seq db + 1.
Proof.
  rewrite handle_fst, handle_snd. intros Hr%response_created_inv.
  cbn [dispatch] in *. revert Hr.
  destruct (body_cases CreateAd sent) as [(data & v & -> & Hv) | (e & He & _)].
  - rewrite (post_object _ _ _ _ Hv). unfold flush_insert.
    destruct (negb _); [discriminate|]. destruct (_ <? _); [discriminate|].
    unfold insert_commit.
    destruct (supplied data "ad_name"), (supplied data "ad_body"),
      (supplied data "ad_owner"); try case_bool_decide; cbn [fst snd];
      intros Hr; try discriminate Hr.
    assert (created_json (advertisements_id_seq db)
              (mkAdvertisement s s0 s1 now) = created_json i ad) as Hc
      by congruence.
    apply created_json_inj in Hc. done.
  - rewrite (post_rejected _ _ _ _ He). cbn [fst]. intros Hr.
    discriminate Hr.
Qed.

(** X9.  Ids are handed out in increasing order and never again: when a POST
    is answered with id [i], every POST answered later, whatever requests
    come in between, carries a larger id. *)
Theorem post_ids_increase db j now i ad reqs j' now' i' ad' :
  (handle (POST j now) db).1 = mkResponse 200 (JsonBody (created_json i ad)) →
  (handle (POST j' now') (run reqs (handle (POST j now) db).2)).1
  = mkResponse 200 (JsonBody (created_json i' ad')) →
  i < i'.
Proof.
  intros [-> Hseq]%post_created [-> _]%post_created.
  pose proof (run_seq_mono reqs (handle (POST j now) db).2). lia.
Qed.

Lemma post_ids_increase_witness : 1 < 3.
Proof.
  apply (post_ids_increase create_all payload_xyz dt0 1
           (mkAdvertisement "x" "y" "z" dt0)
           [POST payload_xyz dt1; DELETE 1] payload_wyz dt1 3
           (mkAdvertisement "w" "y" "z" dt1)).
  - vm_compute. reflexivity.
  - vm_compute. reflexivity.
Defined.

(** *** PATCH *)

Lemma patched_idem data ad : patched data (patched data ad) = patched data ad.
Proof.
  unfold patched, assign_if_truthy.
  destruct (supplied data "ad_body") as [b|]; [destruct (truthy b)|];
    (destruct (supplied data "ad_name") as [n|]; [destruct (truthy n)|]);
    reflexivity.
Qed.

Lemma response_success_inv r :
  make_response r = mkResponse 200 (JsonBody success) → r = Ok success.
Proof.
  destruct r as [x|e]; [intros H; f_equal; unfold make_response in H;
                        congruence|].
  destruct e; unfold make_response, http_error_handler; intros H;
    discriminate H.
Qed.

(** A PATCH answered with 200 on a stored row: the body validated and the
    row was replaced by the patched one. *)
Lemma patch_answered db ad_id ad data :
  advertisements db !! ad_id = Some ad →
  (handle (PATCH ad_id (JObj data)) db).1 = mkResponse 200 (JsonBody success) →
  (∃ v, validate PatchAd (JObj data) = Ok v)
  ∧ (handle (PATCH ad_id (JObj data)) db).2
    = mkDatabase (<[ad_id := patched data ad]> (advertisements db))
                 (advertisements_id_seq db).
Proof.
  intros Had. rewrite handle_fst, handle_snd.
  intros Hr%response_success_inv. cbn [dispatch] in *. revert Hr.
  destruct (validate PatchAd (JObj data)) as [v|e] eqn:Hv.
  - rewrite (patch_validated _ _ _ _ Hv), Had.
    unfold flush_update, update_commit.
    case_bool_decide; [discriminate|]. case_bool_decide; [discriminate|].
    intros _. split; [eauto|done].
  - rewrite (patch_rejected ad_id (JObj data) db e Hv). discriminate.
Qed.



(** X11.  PATCH is idempotent: sending a PATCH that was answered with 200 a
    second time is answered with 200 again and leaves the database as the
    first one made it. *)
Theorem patch_idempotent db ad_id ad data :
  advertisements db !! ad_id = Some ad →
  (handle (PATCH ad_id (JObj data)) db).1 = mkResponse 200 (JsonBody success) →
  let db' := (handle (PATCH ad_id (JObj data)) db).2 in
  handle (PATCH ad_id (JObj data)) db'
  = (mkResponse 200 (JsonBody success), db').
Proof.
  intros Had Hok db'. subst db'.
  destruct (patch_answered db ad_id ad data Had Hok) as [[v Hv] ->].
  unfold handle, dispatch.
  rewrite (patch_validated _ _ _ _ Hv). simpl. rewrite lookup_insert_eq.
  rewrite flush_update_ok; rewrite ?patched_idem; [|by left..|done].
  simpl. by rewrite insert_insert_eq.
Qed.

Lemma patch_idempotent_witness :
  let data : gmap string json := list_to_map [("ad_name", JStr "new")] in
  let db' := (handle (PATCH 1 (JObj data)) db1).2 in
  handle (PATCH 1 (JObj data)) db' = (mkResponse 200 (JsonBody success), db').
Proof.
  apply (patch_idempotent db1 1 (mkAdvertisement "x" "y" "z" dt0)
           (list_to_map [("ad_name", JStr "new")])).
  - reflexivity.
  - vm_compute. reflexivity.
Defined.

(** X12.  A PATCH creates and removes nothing: whatever the id and the body,
    the set of stored ids and the id sequence are as before. *)
Theorem patch_keeps_ids ad_id j db :
  dom (advertisements (handle (PATCH ad_id j) db).2) = dom (advertisements db)
  ∧ advertisements_id_seq (handle (PATCH ad_id j) db).2
    = advertisements_id_seq db.
Proof.
  rewrite handle_snd. simpl.
  destruct (patch_effect ad_id j db) as [-> | (data & ad & _ & Had & ->)];
    [done|]. simpl. split; [|done].
  rewrite dom_insert_L.
  assert (ad_id ∈ dom (advertisements db)) by (apply elem_of_dom; eauto).
  set_solver.
Qed.

Lemma validate_field_delete_null fld data f :
  required fld = false → data !! f = Some JNull →
  validate_field fld (delete f data) = validate_field fld data.
Proof.
  intros Hr Hf. unfold validate_field. rewrite Hr.
  destruct (decide (field_name fld = f)) as [->|Hne].
  - by rewrite Hf, lookup_delete_eq.
  - by rewrite lookup_delete_ne.
Qed.

Lemma validate_model_delete_null model data f :
  (∀ fld, fld ∈ model → required fld = false) → data !! f = Some JNull →
  validate_model model (delete f data) = validate_model model data.
Proof.
  intros Hopt Hf. induction model as [|fld rest IH]; [done|].
  cbn [validate_model].
  rewrite IH by (intros ? ?; apply Hopt, elem_of_cons; by right).
  rewrite (validate_field_delete_null fld data f); [done| |done].
  apply Hopt, elem_of_cons. by left.
Qed.

(** X13.  For PATCH an explicit null is the same as a key left out: under
    any key other than [__pydantic_self__], dropping a null from the body
    changes neither the response nor the effect. *)
Theorem patch_null_as_absent db ad_id data f :
  f ≠ "__pydantic_self__" →
  data !! f = Some JNull →
  handle (PATCH ad_id (JObj data)) db
  = handle (PATCH ad_id (JObj (delete f data))) db.
Proof.
  intros Hkey Hf.
  assert (validate PatchAd (JObj (delete f data))
          = validate PatchAd (JObj data)) as Hv.
  { unfold validate, model_dict.
    rewrite lookup_delete_ne by done.
    rewrite (validate_model_delete_null PatchAd data f); [done| |done].
    unfold PatchAd. set_solver. }
  unfold handle, dispatch, AdView.patch. cbn [request_json].
  change (Ok (JObj (delete f data)) ≫= validate PatchAd)
    with (validate PatchAd (JObj (delete f data))).
  change (Ok (JObj data) ≫= validate PatchAd)
    with (validate PatchAd (JObj data)).
  by rewrite Hv.
Qed.

Lemma patch_null_as_absent_witness :
  let data : gmap string json :=
    list_to_map [("ad_name", JNull); ("ad_body", JStr "b2")] in
  handle (PATCH 1 (JObj data)) db1
  = handle (PATCH 1 (JObj (delete "ad_name" data))) db1.
Proof.
  apply (patch_null_as_absent db1 1
           (list_to_map [("ad_name", JNull); ("ad_body", JStr "b2")])
           "ad_name").
  - done.
  - reflexivity.
Defined.

(** *** Keys the schemas do not declare *)





(** *** Rows over time *)

Lemma handle_other_row req db i ad :
  advertisements db !! i = Some ad →
  match req with
  | PATCH k _ | DELETE k => k ≠ i
  | POST _ _ | GET _ => True
  end →
  advertisements (handle req db).2 !! i = Some ad.
Proof.
  intros Had Hreq. rewrite handle_snd.
  destruct req as [j now|k|k j|k]; simpl.
  - destruct (post_effect j now db) as [-> | [-> | (a & Hnone & _ & ->)]];
      [done..|]. simpl. rewrite lookup_insert_ne; [done|]. congruence.
  - done.
  - destruct (patch_effect k j db) as [-> | (data & a & _ & _ & ->)]; [done|].
    simpl. by rewrite lookup_insert_ne.
  - destruct (delete_effect k db) as [-> | ->]; [done|].
    simpl. by rewrite lookup_delete_ne.
Qed.

(** X15.  Requests leave the advertisements they do not address as they
    are: after any sequence of requests that holds no PATCH and no DELETE on
    an id, the row stored under that id is the one that was there. *)
Theorem other_rows_untouched reqs db i ad :
  advertisements db !! i = Some ad →
  Forall (λ req, match req with
                 | PATCH k _ | DELETE k => k ≠ i
                 | POST _ _ | GET _ => True
                 end) reqs →
  advertisements (run reqs db) !! i = Some ad.
Proof.
  intros Had Hreqs. revert db Had.
  induction Hreqs as [|req rest Hreq _ IH]; intros db Had; [done|].
  simpl. by apply IH, handle_other_row.
Qed.

Lemma other_rows_untouched_witness :
  advertisements
    (run [DELETE 2; POST payload_wyz dt1;
          PATCH 3 (obj [("ad_body", JStr "b")]); GET 1] db2) !! 1
  = Some (mkAdvertisement "x" "y" "z" dt0).
Proof.
  apply (other_rows_untouched
           [DELETE 2; POST payload_wyz dt1;
            PATCH 3 (obj [("ad_body", JStr "b")]); GET 1]
           db2 1 (mkAdvertisement "x" "y" "z" dt0)).
  - reflexivity.
  - repeat constructor; done.
Defined.

Lemma handle_row_step req db i ad :
  advertisements db !! i = Some ad →
  advertisements (handle req db).2 !! i = None
  ∨ ∃ ad', advertisements (handle req db).2 !! i = Some ad'
           ∧ ad_owner ad' = ad_owner ad ∧ created_at ad' = created_at ad.
Proof.
  intros Had.
  assert (advertisements (handle req db).2 !! i = Some ad →
          ∃ ad', advertisements (handle req db).2 !! i = Some ad'
                 ∧ ad_owner ad' = ad_owner ad ∧ created_at ad' = created_at ad)
    as Hsame by (intros ?; by exists ad).
  destruct req as [j now|k|k j|k].
  - right. by apply Hsame, handle_other_row.
  - right. by apply Hsame, handle_other_row.
  - right. destruct (decide (k = i)) as [->|Hne].
    + by destruct (patch_frame_any_body db i ad j Had) as [Hrow _].
    + by apply Hsame, handle_other_row.
  - destruct (decide (k = i)) as [->|Hne].
    + rewrite handle_snd. simpl.
      destruct (delete_effect i db) as [-> | ->]; simpl.
      * right. by exists ad.
      * left. apply lookup_delete_eq.
    + right. by apply Hsame, handle_other_row.
Qed.

(** X16.  The owner and the creation time of an advertisement are fixed for
    its lifetime: from a state reached from the empty table, whatever
    requests follow, a row still found under the id has the owner and the
    [created_at] it had. *)
Theorem owner_and_created_at_fixed reqs db i ad ad' :
  reachable db →
  advertisements db !! i = Some ad →
  advertisements (run reqs db) !! i = Some ad' →
  ad_owner ad' = ad_owner ad ∧ created_at ad' = created_at ad.
Proof.
  revert db ad. induction reqs as [|req rest IH]; intros db ad Hreach Had Hrun.
  - simpl in Hrun. by simplify_eq.
  - simpl in Hrun.
    destruct (handle_row_step req db i ad Had) as [Hnone | (a & Ha & Ho & Hc)].
    + assert (retired i (handle req db).2) as Hret.
      { split; [done|]. pose proof (handle_seq_mono req db).
        assert (i < advertisements_id_seq db)
          by (apply (reachable_ids_below_seq db Hreach); eauto). lia. }
      destruct (run_retired i rest _ Hret) as [Hgone _]. congruence.
    + rewrite <- Ho, <- Hc.
      apply (IH (handle req db).2 a); [by apply reachable_step|done..].
Qed.

Lemma owner_and_created_at_fixed_witness :
  ad_owner (mkAdvertisement "n" "y" "z" dt0) = "z"
  ∧ created_at (mkAdvertisement "n" "y" "z" dt0) = dt0.
Proof.
  apply (owner_and_created_at_fixed
           [PATCH 1 (obj [("ad_name", JStr "n"); ("ad_owner", JStr "q")]);
            DELETE 2; POST payload_wyz dt1]
           db2 1 (mkAdvertisement "x" "y" "z" dt0)
           (mkAdvertisement "n" "y" "z" dt0)).
  - apply (reachable_step (POST payload_wyz dt1)).
    apply (reachable_step (POST payload_xyz dt0)), reachable_init.
  - reflexivity.
  - vm_compute. reflexivity.
Defined.



(** *** The order of checks in PATCH *)



(** X19.  A PATCH that would rename an advertisement to the [ad_name] of
    another one runs into the unique index: it is answered with the 500
    page and the database stays as it was. *)
Theorem patch_rename_conflict db ad_id ad data :
  advertisements db !! ad_id = Some ad →
  patchable data →
  ad_name (patched data ad) ≠ ad_name ad →
  name_taken_by_other ad_id (ad_name (patched data ad)) (advertisements db) →
  handle (PATCH ad_id (JObj data)) db
  = (mkResponse 500 InternalServerErrorPage, db).
Proof.
  intros Had Hp Hne Htaken. unfold handle, dispatch.
  destruct (bindable_dec data) as [Hbind | Hnb];
    [|by rewrite (patch_not_bindable ad_id data db Hnb)].
  destruct (proj1 (validate_PatchAd_Ok data) (conj Hbind Hp)) as [v Hv].
  rewrite (patch_validated _ _ _ _ Hv), Had.
  destruct (flush_update ad_id ad (patched data ad) db)
    as [[u|e] db'] eqn:Hflush.
  - exfalso. revert Hflush. unfold flush_update, update_commit.
    case_bool_decide; [discriminate|].
    by rewrite bool_decide_eq_true_2.
  - pose proof (flush_update_raise ad_id ad (patched data ad) db e) as Hr.
    rewrite Hflush in Hr.
    destruct (Hr eq_refl) as [Hdb [-> | ->]]; simpl in Hdb; by subst.
Qed.

Lemma patch_rename_conflict_witness :
  handle (PATCH 2 (JObj (list_to_map [("ad_name", JStr "x")]))) db2
  = (mkResponse 500 InternalServerErrorPage, db2).
Proof.
  apply (patch_rename_conflict db2 2 (mkAdvertisement "w" "y" "z" dt1)
           (list_to_map [("ad_name", JStr "x")])).
  - reflexivity.
  - eapply patchable_intro. vm_compute. reflexivity.
  - vm_compute. discriminate.
  - exists 1, (mkAdvertisement "x" "y" "z" dt0). split; [reflexivity|].
    split; [done|reflexivity].
Defined.

